(** * RADOLAN composite decoding and zonal statistics

    The notebooks of this repository call [wradlib.io.read_radolan_composite],
    [wradlib.zonalstats.grid_centers_to_vertices], [ZonalDataPoly],
    [ZonalDataPoly.dump_vector] and [ZonalStatsPoly].  The bodies of these
    functions are not part of the notebooks; the definitions below that stand
    for them are modelled from the specification (sections 3 and 4), while the
    call sequences are taken from the notebooks themselves.

    Numbers are exact rationals ([Q]); floating-point rounding is not
    modelled. *)

From Stdlib Require Import ZArith QArith Qfield Lqa List Bool Lia.
From Stdlib Require Strings.Byte.
Import ListNotations.

(** A small error monad over [sum], used by every fallible operation. *)
Definition bind_err {E A B} (m : E + A) (f : A -> E + B) : E + B :=
  match m with
  | inl e => inl e
  | inr a => f a
  end.

Notation "x <-? m ;; k" := (bind_err m (fun x => k))
  (at level 61, m at next level, right associativity).

Fixpoint mapM_err {E A B} (f : A -> E + B) (l : list A) : E + list B :=
  match l with
  | [] => inr []
  | a :: l' => b <-? f a ;; bs <-? mapM_err f l' ;; inr (b :: bs)
  end.

(** ** Composite decoder (spec 3, 4.2) *)
Module Composite.

Inductive ByteOrder := LittleEndian | BigEndian.
Inductive ByteWidth := OneByte | TwoBytes.

Definition width (w : ByteWidth) : nat :=
  match w with OneByte => 1 | TwoBytes => 2 end.

Inductive Flag := Undefined | Secondary | Clutter | Negative.

Definition Flag_eqb (a b : Flag) : bool :=
  match a, b with
  | Undefined, Undefined | Secondary, Secondary
  | Clutter, Clutter | Negative, Negative => true
  | _, _ => false
  end.

(** Product types carried by the header's first token. *)
Inductive Product := RX | EX | RW | SF.

Record CompositeHeader := {
  producttype : Product;
  nrow : nat;
  ncol : nat;
  bytewidth : ByteWidth;
  precision : Q;
  byteorder : ByteOrder;
  (** linear indices of flagged cells listed in the header *)
  hdr_secondary : list nat;
  hdr_clutter : list nat
}.

(** Modelled from the spec: the product-specific sentinel table of
    section 4.2, a lookup from raw integer value to the flag it denotes,
    keyed by product type (table-driven, not per call site).  The spec names
    one entry, 249 for "secondary"; it is given here to the one-byte
    products, the others carry no sentinel. *)
Definition sentinel_table (p : Product) (raw : Z) : option Flag :=
  match p with
  | RX | EX => if Z.eqb raw 249 then Some Secondary else None
  | RW | SF => None
  end.

Record CompositeGrid := {
  (** one entry per cell, row-major; [None] for a flagged cell *)
  grid_data : list (option Q);
  secondary : list nat;
  clutter : list nat;
  undefined : list nat;
  negative : list nat
}.

Inductive DecodeError := FormatError | TruncatedDataError.

(** Reading the payload as fixed-width unsigned integers. *)
Definition word2 (o : ByteOrder) (b0 b1 : Byte.byte) : Z :=
  let z0 := Z.of_N (Byte.to_N b0) in
  let z1 := Z.of_N (Byte.to_N b1) in
  match o with
  | LittleEndian => z0 + 256 * z1
  | BigEndian => 256 * z0 + z1
  end%Z.

Fixpoint words2 (o : ByteOrder) (bs : list Byte.byte) : list Z :=
  match bs with
  | b0 :: b1 :: rest => word2 o b0 b1 :: words2 o rest
  | _ => []
  end.

Definition words (w : ByteWidth) (o : ByteOrder) (bs : list Byte.byte)
  : list Z :=
  match w with
  | OneByte => map (fun b => Z.of_N (Byte.to_N b)) bs
  | TwoBytes => words2 o bs
  end.

(** Linear indices [i] (counted from [start]) whose raw value maps to [f]. *)
Fixpoint flagged (p : Product) (f : Flag) (start : nat) (raws : list Z)
  : list nat :=
  match raws with
  | [] => []
  | r :: rs =>
      match sentinel_table p r with
      | Some g => if Flag_eqb f g then start :: flagged p f (S start) rs
                  else flagged p f (S start) rs
      | None => flagged p f (S start) rs
      end
  end.

(** A raw value is scaled by the header's precision unless it is a
    sentinel. *)
Definition decode_cell (h : CompositeHeader) (raw : Z) : option Q :=
  match sentinel_table (producttype h) raw with
  | Some _ => None
  | None => Some (inject_Z raw * precision h)
  end.

Definition in_grid (h : CompositeHeader) (i : nat) : bool :=
  Nat.ltb i (nrow h * ncol h).

(** Modelled from the spec: [read_radolan_composite] (section 4.2).  The
    payload length is checked against rows * cols * byte-width first; the
    header's index lists are then cross-validated against the grid bounds. *)
Definition read_radolan_composite (h : CompositeHeader)
    (payload : list Byte.byte) : DecodeError + CompositeGrid :=
  if negb (Nat.eqb (length payload) (nrow h * ncol h * width (bytewidth h)))
  then inl TruncatedDataError
  else if negb (forallb (in_grid h) (hdr_secondary h ++ hdr_clutter h))
  then inl FormatError
  else
    let raws := words (bytewidth h) (byteorder h) payload in
    let p := producttype h in
    inr {| grid_data := map (decode_cell h) raws;
           secondary := hdr_secondary h ++ flagged p Secondary 0 raws;
           clutter := hdr_clutter h ++ flagged p Clutter 0 raws;
           undefined := flagged p Undefined 0 raws;
           negative := flagged p Negative 0 raws |}.

End Composite.

(** ** Vertex generator (spec 4.3) *)
Module Vertices.

Abbreviation Point := (Q * Q)%type.

(** Modelled from the spec: the four corners of one cell, from its centre
    and its half-extents, counter-clockwise from the lower left corner; the
    polygon is closed by the edge from the last corner back to the first. *)
Definition cell_vertices (dx dy : Q) (c : Point) : list Point :=
  let (x, y) := c in
  [(x - dx, y - dy); (x + dx, y - dy); (x + dx, y + dy); (x - dx, y + dy)].

(** Modelled from the spec: [wradlib.zonalstats.grid_centers_to_vertices],
    over two 2D arrays (lists of rows) of centre coordinates. *)
Definition grid_centers_to_vertices (xs ys : list (list Q)) (dx dy : Q)
  : list (list (list Point)) :=
  map (fun row => map (cell_vertices dx dy) (combine (fst row) (snd row)))
      (combine xs ys).

(** [wradlib.georef.reproject] applied to an array of vertices: the external
    projection service [proj] applied to every vertex. *)
Definition reproject (proj : Point -> Point) (verts : list (list (list Point)))
  : list (list (list Point)) :=
  map (map (map proj)) verts.

(** The notebook's cell (wradlib_get_rainfall.ipynb, lines 525-533): the
    vertices are generated in native coordinates and then reprojected. *)
Definition notebook_grdverts (proj : Point -> Point) (xs ys : list (list Q))
    (dx dy : Q) : list (list (list Point)) :=
  reproject proj (grid_centers_to_vertices xs ys dx dy).

(** Twice the signed area of a ring (shoelace formula); positive for a
    counter-clockwise ring. *)
Fixpoint shoelace_aux (first : Point) (ps : list Point) : Q :=
  match ps with
  | [] => 0
  | [p] => fst p * snd first - fst first * snd p
  | p :: ((q :: _) as rest) => (fst p * snd q - fst q * snd p) + shoelace_aux first rest
  end.

Definition signed_area2 (ps : list Point) : Q :=
  match ps with
  | [] => 0
  | p :: _ => shoelace_aux p ps
  end.

End Vertices.

(** ** Overlap computer, weight store and statistics engine (spec 4.4-4.6) *)
Module Zonal.

(** Areas are measured exactly on a lattice: a region is a finite set of unit
    lattice squares, named by their lower left corner.  The unit square is
    the area resolution, so an omission threshold of at most one square is a
    sliver tolerance below it; partial squares (general polygon clipping)
    are not represented. *)
Definition Pixel := (Z * Z)%type.
Definition Region := list Pixel.

Definition pixel_eqb (p q : Pixel) : bool :=
  Z.eqb (fst p) (fst q) && Z.eqb (snd p) (snd q).

Definition mem (p : Pixel) (r : Region) : bool := existsb (pixel_eqb p) r.

Fixpoint nodupb (r : Region) : bool :=
  match r with
  | [] => true
  | p :: r' => negb (mem p r') && nodupb r'
  end.

Definition area (r : Region) : nat := length r.

(** Area of the intersection of a source cell [c] with a target [t]. *)
Definition isec_area (c t : Region) : nat := length (filter (fun p => mem p c) t).

Record TargetPolygon := { tkey : Z; tregion : Region }.

Record OverlapRecord := { src_idx : nat; trg_key : Z; frac : Q }.

Record ZonalWeightTable := {
  records : list OverlapRecord;
  targets : list Z;      (** target keys, in input order *)
  ncells : nat;          (** number of source cells of the geometry *)
  fingerprint : Z
}.

Inductive GeometryError := DegenerateTarget (k : Z).

Definition Qnat (n : nat) : Q := inject_Z (Z.of_nat n).

(** A target is rejected when it has zero area or covers a square twice. *)
Definition valid_target (t : TargetPolygon) : bool :=
  negb (Nat.eqb (area (tregion t)) 0) && nodupb (tregion t).

(** Pairs with zero or below-[eps] intersection area are omitted; the
    fraction is normalised by the target's area.  Every source cell is
    examined (a spatial index only skips cells of zero overlap). *)
Fixpoint overlap_go (eps : Q) (t : TargetPolygon) (i : nat) (cs : list Region)
  : list OverlapRecord :=
  match cs with
  | [] => []
  | c :: cs' =>
      let ia := isec_area c (tregion t) in
      if Nat.ltb 0 ia && Qle_bool eps (Qnat ia)
      then {| src_idx := i; trg_key := tkey t;
              frac := Qnat ia / Qnat (area (tregion t)) |}
           :: overlap_go eps t (S i) cs'
      else overlap_go eps t (S i) cs'
  end.

Definition overlap_records (eps : Q) (cells : list Region) (t : TargetPolygon)
  : list OverlapRecord :=
  overlap_go eps t 0 cells.

(** Geometry fingerprint: a rolling hash of every source cell and target. *)
Definition hash_mod : Z := 2305843009213693951%Z.

Definition hash_step (acc z : Z) : Z := ((acc * 1000003 + z) mod hash_mod)%Z.

Definition hash_region (acc : Z) (r : Region) : Z :=
  fold_left (fun a p => hash_step (hash_step a (fst p)) (snd p)) r
            (hash_step acc (Z.of_nat (length r))).

Definition geometry_fingerprint (cells : list Region) (trgs : list TargetPolygon)
  : Z :=
  fold_left (fun a t => hash_region (hash_step a (tkey t)) (tregion t)) trgs
            (fold_left hash_region cells 17%Z).

(** Modelled from the spec: [ZonalDataPoly] (section 4.4). *)
Definition ZonalDataPoly (eps : Q) (cells : list Region)
    (trgs : list TargetPolygon) : GeometryError + ZonalWeightTable :=
  match find (fun t => negb (valid_target t)) trgs with
  | Some t => inl (DegenerateTarget (tkey t))
  | None => inr {| records := flat_map (overlap_records eps cells) trgs;
                   targets := map tkey trgs;
                   ncells := length cells;
                   fingerprint := geometry_fingerprint cells trgs |}
  end.

(** Sum of the overlap fractions of the records of target [k]. *)
Definition target_fraction_sum (tbl : ZonalWeightTable) (k : Z) : Q :=
  fold_right Qplus 0
    (map frac (filter (fun r => Z.eqb (trg_key r) k) (records tbl))).

(** Every square of [t] lies in some source cell. *)
Definition covered_b (cells : list Region) (t : Region) : bool :=
  forallb (fun p => existsb (mem p) cells) t.

(** Some square of [t] lies in no source cell. *)
Definition partially_outside_b (cells : list Region) (t : Region) : bool :=
  existsb (fun p => negb (existsb (mem p) cells)) t.

(** No square lies in two source cells. *)
Fixpoint disjoint_b (cells : list Region) : bool :=
  match cells with
  | [] => true
  | c :: cs => forallb (fun d => forallb (fun p => negb (mem p d)) c) cs
               && disjoint_b cs
  end.

(** No positive intersection of a source cell with [t] is below [eps]. *)
Definition above_eps_b (eps : Q) (cells : list Region) (t : Region) : bool :=
  forallb (fun c => Nat.eqb (isec_area c t) 0 || Qle_bool eps (Qnat (isec_area c t)))
          cells.

(** Counting helpers: the intersection area that survives the [eps] filter,
    sums of naturals, and the number of source cells holding a square. *)
Definition kept (eps : Q) (ia : nat) : nat :=
  if Nat.ltb 0 ia && Qle_bool eps (Qnat ia) then ia else 0%nat.

Definition sumn (l : list nat) : nat := fold_right Nat.add 0%nat l.

Definition hit (p : Pixel) (c : Region) : nat := if mem p c then 1%nat else 0%nat.

Definition hits (p : Pixel) (cells : list Region) : nat := sumn (map (hit p) cells).

End Zonal.

(** ** Zonal weight store (spec 4.5): [ZonalDataPoly.dump_vector] and the
    file read by [ZonalStatsPoly(file)] *)
Module WeightStore.
Import Zonal.

(** Modelled from the spec: the persisted format is a flat sequence of
    integers: fingerprint, cell count, the target keys (counted), then the
    records (counted), each as source index, key, numerator, denominator. *)
Definition encode_record (r : OverlapRecord) : list Z :=
  [Z.of_nat (src_idx r); trg_key r; Qnum (frac r); Zpos (Qden (frac r))].

Definition dump_vector (tbl : ZonalWeightTable) : list Z :=
  fingerprint tbl :: Z.of_nat (ncells tbl)
  :: Z.of_nat (length (targets tbl)) :: targets tbl
  ++ Z.of_nat (length (records tbl)) :: flat_map encode_record (records tbl).

Fixpoint decode_keys (n : nat) (zs : list Z) : option (list Z * list Z) :=
  match n with
  | O => Some ([], zs)
  | S n' =>
      match zs with
      | [] => None
      | z :: zs' =>
          match decode_keys n' zs' with
          | Some (ks, rest) => Some (z :: ks, rest)
          | None => None
          end
      end
  end.

Definition decode_record (i k num den : Z) : option OverlapRecord :=
  match den with
  | Zpos d => if Z.leb 0 i
              then Some {| src_idx := Z.to_nat i; trg_key := k; frac := Qmake num d |}
              else None
  | _ => None
  end.

Fixpoint decode_records (n : nat) (zs : list Z)
  : option (list OverlapRecord * list Z) :=
  match n with
  | O => Some ([], zs)
  | S n' =>
      match zs with
      | i :: k :: num :: den :: zs' =>
          match decode_record i k num den, decode_records n' zs' with
          | Some r, Some (rs, rest) => Some (r :: rs, rest)
          | _, _ => None
          end
      | _ => None
      end
  end.

Definition load_vector (zs : list Z) : option ZonalWeightTable :=
  match zs with
  | fp :: nc :: nt :: zs1 =>
      if Z.leb 0 nc && Z.leb 0 nt then
        match decode_keys (Z.to_nat nt) zs1 with
        | Some (ks, nr :: zs2) =>
            if Z.leb 0 nr then
              match decode_records (Z.to_nat nr) zs2 with
              | Some (rs, []) =>
                  Some {| records := rs; targets := ks;
                          ncells := Z.to_nat nc; fingerprint := fp |}
              | _ => None
              end
            else None
        | _ => None
        end
      else None
  | _ => None
  end.

End WeightStore.

(** ** Zonal statistics engine (spec 4.6) *)
Module Stats.
Import Zonal WeightStore.

Inductive StatsError := DimensionMismatchError | IndexError | LoadError.

(** The (value, weight) pairs of target [k]; a cell whose value equals the
    no-data sentinel is skipped, so it enters neither sum. *)
Fixpoint contrib (nodata : Q) (vals : list Q) (k : Z) (rs : list OverlapRecord)
  : StatsError + list (Q * Q) :=
  match rs with
  | [] => inr []
  | r :: rs' =>
      if Z.eqb (trg_key r) k then
        match nth_error vals (src_idx r) with
        | None => inl IndexError
        | Some v =>
            ps <-? contrib nodata vals k rs' ;;
            if Qeq_bool v nodata then inr ps else inr ((v, frac r) :: ps)
        end
      else contrib nodata vals k rs'
  end.

Definition sum_w (ps : list (Q * Q)) : Q :=
  fold_right (fun p acc => snd p + acc) 0 ps.

Definition sum_wv (ps : list (Q * Q)) : Q :=
  fold_right (fun p acc => snd p * fst p + acc) 0 ps.

(** Weighted mean; no value (NaN in the library) when the weights sum to 0. *)
Definition weighted_mean (ps : list (Q * Q)) : option Q :=
  if Qeq_bool (sum_w ps) 0 then None else Some (sum_wv ps / sum_w ps).

Definition weighted_var (ps : list (Q * Q)) : option Q :=
  match weighted_mean ps with
  | None => None
  | Some m =>
      Some (fold_right (fun p acc => snd p * ((fst p - m) * (fst p - m)) + acc)
              0 ps / sum_w ps)
  end.

(** One statistics call: the length of the value sequence is checked
    against the table's geometry before any target is visited. *)
Definition zonal_stat {A} (stat : list (Q * Q) -> A) (nodata : Q)
    (tbl : ZonalWeightTable) (vals : list Q) : StatsError + list A :=
  if negb (Nat.eqb (length vals) (ncells tbl)) then inl DimensionMismatchError
  else mapM_err (fun k => ps <-? contrib nodata vals k (records tbl) ;;
                          inr (stat ps))
                (targets tbl).

Definition mean := zonal_stat weighted_mean.
Definition var := zonal_stat weighted_var.

(** The weighted mean of one target. *)
Definition target_mean (nodata : Q) (tbl : ZonalWeightTable) (vals : list Q)
    (k : Z) : StatsError + option Q :=
  if negb (Nat.eqb (length vals) (ncells tbl)) then inl DimensionMismatchError
  else ps <-? contrib nodata vals k (records tbl) ;; inr (weighted_mean ps).

(** The table with every record of source cell [i] left out. *)
Definition remove_cell (i : nat) (tbl : ZonalWeightTable) : ZonalWeightTable :=
  {| records := filter (fun r => negb (Nat.eqb (src_idx r) i)) (records tbl);
     targets := targets tbl; ncells := ncells tbl;
     fingerprint := fingerprint tbl |}.

(** [ZonalStatsPoly] is built from zonal data or from a dumped file. *)
Inductive ZonalSource :=
  | FromData (zd : ZonalWeightTable)
  | FromFile (handle : list Z).

Definition ZonalStatsPoly (src : ZonalSource) : StatsError + ZonalWeightTable :=
  match src with
  | FromData zd => inr zd
  | FromFile h => match load_vector h with
                  | Some tbl => inr tbl
                  | None => inl LoadError
                  end
  end.

Definition obj_stat {A} (stat : list (Q * Q) -> A) (nodata : Q)
    (obj : StatsError + ZonalWeightTable) (vals : list Q) : StatsError + list A :=
  tbl <-? obj ;; zonal_stat stat nodata tbl vals.

(** The notebook's benchmark cell (lines 665-682): [zd] is dumped, an object
    is created from the file, another one from a fresh [ZonalDataPoly] over
    the same cells and targets; both are asked for a statistic. *)
Definition notebook_benchmark {A} (stat : list (Q * Q) -> A) (nodata eps : Q)
    (cells : list Region) (trgs : list TargetPolygon) (zd : ZonalWeightTable)
    (vals : list Q) : (StatsError + list A) * (GeometryError + (StatsError + list A)) :=
  let obj_file := ZonalStatsPoly (FromFile (dump_vector zd)) in
  let obj_scratch := match ZonalDataPoly eps cells trgs with
                     | inr zd' => inr (ZonalStatsPoly (FromData zd'))
                     | inl e => inl e
                     end in
  (obj_stat stat nodata obj_file vals,
   match obj_scratch with
   | inr o => inr (obj_stat stat nodata o vals)
   | inl e => inl e
   end).

End Stats.

(** ** The notebooks' own array code *)
Module Notebook.
Import Vertices Zonal Stats.

Definition mem_nat (i : nat) (idx : list nat) : bool := existsb (Nat.eqb i) idx.

(** numpy's [a.flat[idx] = v] on a flat (row-major) array: every listed cell
    is set to [v]; an index outside the array raises IndexError ([None]). *)
Definition flat_assign (a : list Q) (idx : list nat) (v : Q) : option (list Q) :=
  if forallb (fun i => Nat.ltb i (length a)) idx
  then Some (map (fun ix => if mem_nat (fst ix) idx then v else snd ix)
                 (combine (seq 0 (length a)) a))
  else None.

(** numpy's [np.ma.masked_equal(a, v)]; [None] is a masked cell. *)
Definition masked_equal (a : list Q) (v : Q) : list (option Q) :=
  map (fun x => if Qeq_bool x v then None else Some x) a.

(** part_000, lines 77-80:
    [rwdata.flat[sec] = -9999; rwdata = np.ma.masked_equal(rwdata, -9999)]. *)
Definition rw_mask_invalid (rwdata : list Q) (sec : list nat)
  : option (list (option Q)) :=
  match flat_assign rwdata sec (-9999) with
  | Some a => Some (masked_equal a (-9999))
  | None => None
  end.

(** wradlib_get_rainfall.ipynb, lines 367-368: [data.flat[sec] = np.nan],
    the no-data value being [nodata]. *)
Definition mask_secondary (nodata : Q) (data : list Q) (sec : list nat)
  : option (list Q) :=
  flat_assign data sec nodata.

(** [inLayer.GetExtent()]: (min x, max x, min y, max y). *)
Record Extent := { ext_xmin : Q; ext_xmax : Q; ext_ymin : Q; ext_ymax : Q }.

Record BBox := { bb_left : Q; bb_right : Q; bb_bottom : Q; bb_top : Q }.

Definition Qltb (a b : Q) : bool := negb (Qle_bool b a).

(** Lines 483-486: the extent widened by [buffer] on every side. *)
Definition buffered_bbox (e : Extent) (buffer : Q) : BBox :=
  {| bb_left := ext_xmin e - buffer; bb_right := ext_xmax e + buffer;
     bb_bottom := ext_ymin e - buffer; bb_top := ext_ymax e + buffer |}.

Definition notebook_buffer : Q := 5000.

(** Lines 487-488: the strict-inequality mask over the reprojected centres. *)
Definition clip_mask (b : BBox) (xy : list Point) : list bool :=
  map (fun p => (Qltb (bb_bottom b) (snd p) && Qltb (snd p) (bb_top b)) &&
                (Qltb (bb_left b) (fst p) && Qltb (fst p) (bb_right b))) xy.

(** numpy's [a[mask]] on flat arrays: the cells under [true], in order; a
    mask of another shape raises IndexError ([None]). *)
Definition select {A} (mask : list bool) (l : list A) : option (list A) :=
  if Nat.eqb (length mask) (length l)
  then Some (map snd (filter fst (combine mask l)))
  else None.

(** Lines 483-490 and 525-533: clip the grid, build the cell polygons of the
    kept cells in native coordinates, reproject them; [data_] are the kept
    values.  A 1-D array of centres is the one-row case of the generator. *)
Definition notebook_clip (proj : Point -> Point) (e : Extent) (xy : list Point)
    (x_radolan y_radolan data : list Q) : option (list (list Point) * list Q) :=
  let mask := clip_mask (buffered_bbox e notebook_buffer) xy in
  match select mask x_radolan, select mask y_radolan, select mask data with
  | Some xs, Some ys, Some data_ =>
      Some (concat (notebook_grdverts proj [xs] [ys] 1 1), data_)
  | _, _, _ => None
  end.

(** Lines 557-565: [zd = ZonalDataPoly(grdverts, cats)],
    [obj = ZonalStatsPoly(zd)], [avg = obj.mean(data_.ravel())];
    [raster] gives the area representation of a polygon. *)
Definition notebook_zonal_mean (raster : list Point -> Region) (proj : Point -> Point)
    (eps nodata : Q) (e : Extent) (xy : list Point) (x_radolan y_radolan data : list Q)
    (cats : list TargetPolygon)
  : option (GeometryError + (StatsError + list (option Q))) :=
  match notebook_clip proj e xy x_radolan y_radolan data with
  | Some (grdverts, data_) =>
      match ZonalDataPoly eps (map raster grdverts) cats with
      | inr zd => Some (inr (obj_stat weighted_mean nodata
                                      (ZonalStatsPoly (FromData zd)) data_))
      | inl err => Some (inl err)
      end
  | None => None
  end.

(** The position of the [k]-th [true] of a mask (from 0). *)
Fixpoint kth_true (mask : list bool) (k : nat) : option nat :=
  match mask with
  | [] => None
  | true :: m => match k with
                 | O => Some O
                 | S k' => option_map S (kth_true m k')
                 end
  | false :: m => option_map S (kth_true m k)
  end.

End Notebook.

(** ** Sample inputs used by the examples and witnesses below *)
Module Samples.
Import Composite Zonal.

Definition hdr_1x1 (sec : list nat) : CompositeHeader :=
  {| producttype := RX; nrow := 1; ncol := 1; bytewidth := OneByte;
     precision := 1%Q; byteorder := LittleEndian;
     hdr_secondary := sec; hdr_clutter := [] |}.

Definition tbl_one (key : Z) : ZonalWeightTable :=
  {| records := [{| src_idx := 0; trg_key := key; frac := 1 |}];
     targets := [key]; ncells := 1; fingerprint := 0%Z |}.

Definition tbl_two : ZonalWeightTable :=
  {| records := [{| src_idx := 0; trg_key := 1; frac := 1#2 |};
                 {| src_idx := 1; trg_key := 1; frac := 1#2 |}];
     targets := [1%Z]; ncells := 2; fingerprint := 0%Z |}.

Definition tbl_uneven : ZonalWeightTable :=
  {| records := [{| src_idx := 0; trg_key := 1; frac := 1#4 |};
                 {| src_idx := 1; trg_key := 1; frac := 3#4 |}];
     targets := [1%Z]; ncells := 2; fingerprint := 0%Z |}.

(** Two lattice cells, [{(0,0),(1,0)}] and [{(2,0)}], and one catchment
    made of all three squares. *)
Definition cells_2 : list Region := [[(0, 0); (1, 0)]; [(2, 0)]]%Z.

Definition catchment_3 : TargetPolygon :=
  {| tkey := 1; tregion := [(0, 0); (1, 0); (2, 0)]%Z |}.

(** The table [ZonalDataPoly] builds from them with threshold [eps]. *)
Definition built_eps (eps : Q) : ZonalWeightTable :=
  match ZonalDataPoly eps cells_2 [catchment_3] with
  | inr tbl => tbl
  | inl _ => tbl_one 0%Z
  end.

End Samples.

(** * Properties *)

Module CompositeFacts.
Import Composite Samples.
Local Open Scope nat_scope.

Lemma words2_length : forall o n bs,
  length bs = 2 * n -> length (words2 o bs) = n.
Proof.
  intros o n. induction n as [|n IH]; intros bs Hlen.
  - destruct bs; [reflexivity | simpl in Hlen; discriminate].
  - destruct bs as [|b0 [|b1 bs]]; simpl in Hlen; try lia.
    simpl. f_equal. apply IH. lia.
Qed.

Lemma words_length : forall w o bs k,
  length bs = k * width w -> length (words w o bs) = k.
Proof.
  intros w o bs k Hlen. destruct w; simpl in *.
  - rewrite length_map. lia.
  - apply words2_length. lia.
Qed.


Example decode_1x1_ok :
  read_radolan_composite (hdr_1x1 []) [Byte.x07] =
  inr {| grid_data := [Some (inject_Z 7 * 1)%Q]; secondary := []; clutter := [];
         undefined := []; negative := [] |}.
Proof. reflexivity. Qed.

(** ** C3 (as amended) *)

(** Claim C3, amended: the decoder returns a grid of exactly rows*cols
    values if and only if the payload length equals rows*cols*byte-width
    AND every cell index listed in the header lies inside the grid; when the
    length disagrees the result is TruncatedDataError and no grid; when the
    length agrees but a listed index lies outside the grid the result is
    FormatError (the length is checked first). *)
Theorem read_radolan_composite_length :
  forall h payload,
    ((exists g, read_radolan_composite h payload = inr g /\
                length (grid_data g) = nrow h * ncol h)
     <-> (length payload = nrow h * ncol h * width (bytewidth h) /\
          forallb (in_grid h) (hdr_secondary h ++ hdr_clutter h) = true))
    /\ (length payload <> nrow h * ncol h * width (bytewidth h) ->
        read_radolan_composite h payload = inl TruncatedDataError)
    /\ (length payload = nrow h * ncol h * width (bytewidth h) ->
        forallb (in_grid h) (hdr_secondary h ++ hdr_clutter h) = false ->
        read_radolan_composite h payload = inl FormatError).
Proof.
  intros h payload. unfold read_radolan_composite. split.
  - split.
    + intros [g [Hg _]].
      destruct (Nat.eqb (length payload) _) eqn:E; simpl in Hg; [|discriminate].
      destruct (forallb _ _) eqn:F; simpl in Hg; [|discriminate].
      split; [apply Nat.eqb_eq; exact E | reflexivity].
    + intros [Hlen Hidx].
      apply Nat.eqb_eq in Hlen. rewrite Hlen, Hidx. simpl.
      eexists. split; [reflexivity|]. simpl.
      rewrite length_map. apply words_length. apply Nat.eqb_eq. exact Hlen.
  - split.
    + intros Hne. apply Nat.eqb_neq in Hne. rewrite Hne. reflexivity.
    + intros Hlen Hidx. apply Nat.eqb_eq in Hlen. rewrite Hlen, Hidx. reflexivity.
Qed.

(** Witness of C3: a 1x1 one-byte header listing cell 5, with a one-byte
    payload, fails with FormatError. *)
Lemma read_radolan_composite_length_witness :
  read_radolan_composite (hdr_1x1 [5]) [Byte.x00] = inl FormatError.
Proof.
  apply (proj2 (proj2 (read_radolan_composite_length (hdr_1x1 [5]) [Byte.x00])));
    reflexivity.
Defined.

(** Claim C3, counterexample: a 1x1 one-byte header whose secondary list
    names cell 5; the one-byte payload has the declared length, yet the
    decoder fails (with FormatError), so "succeeds iff the lengths agree"
    does not hold. *)
Lemma read_radolan_composite_length_cex :
  ~ (forall h payload,
       (exists g, read_radolan_composite h payload = inr g /\
                  length (grid_data g) = nrow h * ncol h)
       <-> length payload = nrow h * ncol h * width (bytewidth h)).
Proof.
  intros Hall.
  destruct (proj2 (Hall (hdr_1x1 [5]) [Byte.x00]) eq_refl) as [g [Hg _]].
  vm_compute in Hg. discriminate.
Qed.

End CompositeFacts.

Module StoreFacts.
Import Zonal WeightStore.

Lemma decode_keys_app : forall ks rest,
  decode_keys (length ks) (ks ++ rest) = Some (ks, rest).
Proof.
  induction ks as [|k ks IH]; intros rest; [reflexivity|].
  simpl. rewrite IH. reflexivity.
Qed.

Lemma decode_record_encode : forall r,
  decode_record (Z.of_nat (src_idx r)) (trg_key r) (Qnum (frac r))
                (Zpos (Qden (frac r))) = Some r.
Proof.
  intros [i k [n d]]. unfold decode_record. simpl.
  replace (Z.leb 0 (Z.of_nat i)) with true by (symmetry; apply Z.leb_le; lia).
  rewrite Nat2Z.id. reflexivity.
Qed.

Lemma decode_records_app : forall rs rest,
  decode_records (length rs) (flat_map encode_record rs ++ rest) = Some (rs, rest).
Proof.
  induction rs as [|r rs IH]; intros rest; [reflexivity|].
  cbn [length flat_map encode_record app decode_records].
  rewrite decode_record_encode, IH. reflexivity.
Qed.

Lemma load_dump_vector_roundtrip : forall tbl,
  load_vector (dump_vector tbl) = Some tbl.
Proof.
  intros [rs ks nc fp]. unfold dump_vector, load_vector. simpl.
  replace (Z.leb 0 (Z.of_nat nc)) with true by (symmetry; apply Z.leb_le; lia).
  replace (Z.leb 0 (Z.of_nat (length ks))) with true
    by (symmetry; apply Z.leb_le; lia).
  simpl. rewrite Nat2Z.id, decode_keys_app.
  replace (Z.leb 0 (Z.of_nat (length rs))) with true
    by (symmetry; apply Z.leb_le; lia).
  rewrite Nat2Z.id, <- (app_nil_r (flat_map encode_record rs)), decode_records_app.
  rewrite Nat2Z.id. reflexivity.
Qed.

(** Claim C2: loading what [dump_vector] wrote gives back exactly the same
    table: the same overlap records (bit for bit), the same target keys, cell
    count and geometry fingerprint. *)
Theorem load_dump_vector : forall tbl,
  load_vector (dump_vector tbl) = Some tbl.
Proof. exact load_dump_vector_roundtrip. Qed.

End StoreFacts.

Module StatsFacts.
Import Zonal WeightStore Stats Samples.

Lemma bind_err_inr : forall E A (m : E + A), bind_err m inr = m.
Proof. intros E A [e|a]; reflexivity. Qed.

(** ** C7 *)

(** Claim C7: when the value sequence's length differs from the number of
    source cells of the table's geometry, every statistics call (whatever
    statistic it computes) and every per-target mean returns
    DimensionMismatchError and nothing else. *)
Theorem zonal_stat_dimension_mismatch :
  forall A (stat : list (Q * Q) -> A) nodata tbl vals k,
    length vals <> ncells tbl ->
    zonal_stat stat nodata tbl vals = inl DimensionMismatchError /\
    target_mean nodata tbl vals k = inl DimensionMismatchError.
Proof.
  intros A stat nodata tbl vals k Hne.
  unfold zonal_stat, target_mean.
  apply Nat.eqb_neq in Hne. rewrite Hne. split; reflexivity.
Qed.


(** Witness of C7: the one-cell table asked with an empty value sequence. *)
Lemma zonal_stat_dimension_mismatch_witness :
  length (@nil Q) <> ncells (tbl_one 1%Z) /\
  (zonal_stat weighted_mean 0 (tbl_one 1%Z) [] = inl DimensionMismatchError /\
   target_mean 0 (tbl_one 1%Z) [] 1%Z = inl DimensionMismatchError).
Proof.
  split; [simpl; discriminate|].
  apply (zonal_stat_dimension_mismatch _ weighted_mean 0 (tbl_one 1%Z) [] 1%Z).
  simpl. discriminate.
Defined.

(** ** C6 *)

Lemma contrib_remove_cell : forall nodata vals k i v rs,
  nth_error vals i = Some v -> Qeq_bool v nodata = true ->
  contrib nodata vals k (filter (fun r => negb (Nat.eqb (src_idx r) i)) rs)
  = contrib nodata vals k rs.
Proof.
  intros nodata vals k i v rs Hv Hnd.
  induction rs as [|r rs IH]; [reflexivity|].
  simpl. destruct (Nat.eqb (src_idx r) i) eqn:Ei; simpl.
  - apply Nat.eqb_eq in Ei. rewrite IH.
    destruct (Z.eqb (trg_key r) k); [|reflexivity].
    rewrite Ei, Hv, Hnd. symmetry. apply bind_err_inr.
  - rewrite IH. reflexivity.
Qed.

(** Claim C6: if the value of source cell [i] equals the no-data sentinel,
    every statistic computed with the table equals the one computed, over
    the same values, with a table from which cell [i] was left out: the cell
    enters neither the weighted sum nor the weight sum (it is not counted as
    a zero value with its weight). *)
Theorem zonal_stat_nodata_cell_removed :
  forall A (stat : list (Q * Q) -> A) nodata tbl vals i v,
    nth_error vals i = Some v -> v == nodata ->
    zonal_stat stat nodata tbl vals
    = zonal_stat stat nodata (remove_cell i tbl) vals.
Proof.
  intros A stat nodata tbl vals i v Hv Hnd.
  apply Qeq_bool_iff in Hnd.
  unfold zonal_stat, remove_cell. simpl.
  destruct (negb _); [reflexivity|].
  induction (targets tbl) as [|k ks IH]; [reflexivity|].
  simpl. rewrite (contrib_remove_cell nodata vals k i v (records tbl) Hv Hnd).
  rewrite IH. reflexivity.
Qed.

(** Witness of C6: two cells in one target, the second carrying the
    sentinel [-1]. *)
Lemma zonal_stat_nodata_cell_removed_witness :
  nth_error [3; -1] 1 = Some (-1) /\ (-1 == -1) /\
  mean (-1) tbl_two [3; -1] = mean (-1) (remove_cell 1 tbl_two) [3; -1].
Proof.
  split; [reflexivity|]. split; [reflexivity|].
  apply (zonal_stat_nodata_cell_removed _ weighted_mean (-1) tbl_two [3; -1] 1 (-1));
    reflexivity.
Defined.

Example mean_tbl_two : mean (-1) tbl_two [3; -1] = inr [Some (((1#2) * 3 + 0) / ((1#2) + 0))].
Proof. reflexivity. Qed.

(** ** C5 *)

Lemma contrib_const : forall nodata vals k v rs,
  ~ (v == nodata) ->
  (forall r, In r rs -> trg_key r = k ->
     0 < frac r /\ exists v', nth_error vals (src_idx r) = Some v' /\ v' == v) ->
  exists ps, contrib nodata vals k rs = inr ps /\
    Forall (fun p => fst p == v /\ 0 < snd p) ps /\
    length ps = length (filter (fun r => Z.eqb (trg_key r) k) rs).
Proof.
  intros nodata vals k v rs Hnd.
  induction rs as [|r rs IH]; intros Hrs.
  - exists []. repeat split; constructor.
  - destruct IH as [ps [Hps [Hall Hlen]]].
    { intros r' Hin Hk. apply Hrs; [right; exact Hin | exact Hk]. }
    simpl. destruct (Z.eqb (trg_key r) k) eqn:Ek.
    + apply Z.eqb_eq in Ek.
      destruct (Hrs r (or_introl eq_refl) Ek) as [Hpos [v' [Hv' Heq]]].
      rewrite Hv', Hps. simpl.
      destruct (Qeq_bool v' nodata) eqn:Eb.
      * exfalso. apply Hnd. apply Qeq_bool_iff in Eb.
        rewrite <- Heq. exact Eb.
      * exists ((v', frac r) :: ps). repeat split; simpl; auto.
    + exists ps. repeat split; auto.
Qed.

Lemma sum_w_pos : forall ps,
  Forall (fun p => 0 < snd p) ps -> ps <> [] -> 0 < sum_w ps.
Proof.
  intros ps Hall. induction Hall as [|p ps Hp Hall IH]; intros Hne.
  - contradiction.
  - simpl. destruct ps as [|q qs].
    + simpl. lra.
    + assert (0 < sum_w (q :: qs)) by (apply IH; discriminate). lra.
Qed.

Lemma sum_wv_const : forall v ps,
  Forall (fun p => fst p == v) ps -> sum_wv ps == v * sum_w ps.
Proof.
  intros v ps Hall. induction Hall as [|p ps Hp Hall IH]; simpl.
  - ring.
  - rewrite IH, Hp. ring.
Qed.

(** Claim C5, amended: if the value of every record of target [k] equals
    [v] (all weights positive), [v] is not the no-data sentinel and the
    target has at least one record, the target's weighted mean is exactly
    [v], whatever the weights. *)
Theorem target_mean_constant : forall nodata tbl vals k v,
  length vals = ncells tbl ->
  ~ (v == nodata) ->
  (exists r, In r (records tbl) /\ trg_key r = k) ->
  (forall r, In r (records tbl) -> trg_key r = k ->
     0 < frac r /\ exists v', nth_error vals (src_idx r) = Some v' /\ v' == v) ->
  exists m, target_mean nodata tbl vals k = inr (Some m) /\ m == v.
Proof.
  intros nodata tbl vals k v Hlen Hnd [r0 [Hin0 Hk0]] Hrs.
  destruct (contrib_const nodata vals k v (records tbl) Hnd Hrs)
    as [ps [Hps [Hall Hlenps]]].
  assert (Hne : ps <> []).
  { intros ->. simpl in Hlenps.
    assert (In r0 (filter (fun r => Z.eqb (trg_key r) k) (records tbl))) as Hf.
    { apply filter_In. split; [exact Hin0 | apply Z.eqb_eq; exact Hk0]. }
    destruct (filter _ _); [contradiction | discriminate]. }
  assert (Hpos : 0 < sum_w ps).
  { apply sum_w_pos; [|exact Hne].
    eapply Forall_impl; [|exact Hall]. intros p [_ H]. exact H. }
  assert (Hval : sum_wv ps == v * sum_w ps).
  { apply sum_wv_const. eapply Forall_impl; [|exact Hall]. intros p [H _]. exact H. }
  unfold target_mean. apply Nat.eqb_eq in Hlen. rewrite Hlen. simpl.
  rewrite Hps. simpl. unfold weighted_mean.
  destruct (Qeq_bool (sum_w ps) 0) eqn:E.
  - apply Qeq_bool_iff in E. lra.
  - eexists. split; [reflexivity|].
    rewrite Hval. field. intros H. lra.
Qed.

(** Witness of C5: two cells of value 3 with weights 1/4 and 3/4. *)
Lemma target_mean_constant_witness :
  exists m, target_mean (-1) tbl_uneven [3; 3] 1%Z = inr (Some m) /\ m == 3.
Proof.
  apply (target_mean_constant (-1) tbl_uneven [3; 3] 1%Z 3).
  - reflexivity.
  - intros H. discriminate H.
  - exists {| src_idx := 0; trg_key := 1; frac := 1#4 |}.
    split; [left; reflexivity | reflexivity].
  - intros r Hin _. simpl in Hin.
    destruct Hin as [<- | [<- | []]]; simpl;
      (split; [reflexivity | eexists; split; reflexivity]).
Defined.

(** Claim C5, counterexample: a target whose only cell (weight 1) carries
    the no-data sentinel [-1]; all its contributing cells carry [v = -1], yet
    the engine returns no mean at all. *)
Lemma target_mean_constant_cex :
  ~ (forall nodata tbl vals k v,
       length vals = ncells tbl ->
       (forall r, In r (records tbl) -> trg_key r = k ->
          0 < frac r /\ exists v', nth_error vals (src_idx r) = Some v' /\ v' == v) ->
       exists m, target_mean nodata tbl vals k = inr (Some m) /\ m == v).
Proof.
  intros Hall.
  destruct (Hall (-1) (tbl_one 1%Z) [-1] 1%Z (-1)) as [m [Hm _]].
  - reflexivity.
  - intros r Hin _. simpl in Hin. destruct Hin as [<- | []]. simpl.
    split; [reflexivity | eexists; split; reflexivity].
  - vm_compute in Hm. discriminate.
Qed.


(** ** C10 *)

(** Claim C10: in the notebook's benchmark, for a [zd] built by
    [ZonalDataPoly] from the cells and targets, the object created from the
    dumped file and the object rebuilt from the same cells and targets
    return the same statistics (both equal to the statistic over [zd]) for
    every value sequence and every statistic. *)
Theorem notebook_benchmark_same_stats :
  forall A (stat : list (Q * Q) -> A) nodata eps cells trgs zd vals,
    ZonalDataPoly eps cells trgs = inr zd ->
    notebook_benchmark stat nodata eps cells trgs zd vals
    = (zonal_stat stat nodata zd vals, inr (zonal_stat stat nodata zd vals)).
Proof.
  intros A stat nodata eps cells trgs zd vals Hzd.
  unfold notebook_benchmark, obj_stat, ZonalStatsPoly.
  rewrite StoreFacts.load_dump_vector_roundtrip, Hzd. reflexivity.
Qed.

(** Witness of C10: the two-cell grid and its catchment, values 2 and 5. *)
Lemma notebook_benchmark_same_stats_witness :
  notebook_benchmark weighted_mean (-1) 1 Samples.cells_2 [Samples.catchment_3]
    (built_eps 1) [2; 5]
  = (mean (-1) (built_eps 1) [2; 5], inr (mean (-1) (built_eps 1) [2; 5])).
Proof.
  apply (notebook_benchmark_same_stats _ weighted_mean (-1) 1 Samples.cells_2
           [Samples.catchment_3] (built_eps 1) [2; 5]).
  reflexivity.
Defined.

End StatsFacts.

Module VertexFacts.
Import Vertices.

Lemma nth_error_combine_some : forall A B (xs : list A) (ys : list B) i x y,
  nth_error xs i = Some x -> nth_error ys i = Some y ->
  nth_error (combine xs ys) i = Some (x, y).
Proof.
  intros A B xs. induction xs as [|a xs IH]; intros ys i x y Hx Hy.
  - destruct i; discriminate.
  - destruct ys as [|b ys]; [destruct i; discriminate|].
    destruct i as [|i]; simpl in *.
    + inversion Hx. inversion Hy. reflexivity.
    + apply IH; assumption.
Qed.

Lemma shape_combine : forall xs ys : list (list Q),
  map (@length Q) xs = map (@length Q) ys ->
  map (fun row => length (combine (fst row) (snd row))) (combine xs ys)
  = map (@length Q) xs.
Proof.
  intros xs. induction xs as [|xr xs IH]; intros ys Hs; [reflexivity|].
  destruct ys as [|yr ys]; [discriminate|].
  simpl in Hs. injection Hs as Hl Hs'.
  simpl. rewrite length_combine, Hl, Nat.min_id, IH by exact Hs'. reflexivity.
Qed.

Lemma cell_vertices_ccw : forall dx dy c,
  length (cell_vertices dx dy c) = 4%nat /\
  signed_area2 (cell_vertices dx dy c) == 8 * dx * dy.
Proof.
  intros dx dy [x y]. split; [reflexivity|].
  unfold signed_area2, cell_vertices. simpl. ring.
Qed.

(** Claim C9: for centre arrays of the same shape, the generator returns an
    array of the same shape holding, at each position, the four corners of
    that cell (lower left, lower right, upper right, upper left); every
    polygon has four vertices and the same counter-clockwise orientation
    (twice its signed area is [8*dx*dy] wherever the cell lies); the
    notebook's pipeline reprojects afterwards, vertex by vertex, exactly
    those native-coordinate polygons. *)
Theorem grid_centers_to_vertices_cells : forall xs ys dx dy,
  map (@length Q) xs = map (@length Q) ys ->
  map (@length _) (grid_centers_to_vertices xs ys dx dy) = map (@length Q) xs /\
  (forall i j xr yr x y,
     nth_error xs i = Some xr -> nth_error ys i = Some yr ->
     nth_error xr j = Some x -> nth_error yr j = Some y ->
     exists row, nth_error (grid_centers_to_vertices xs ys dx dy) i = Some row /\
       nth_error row j = Some (cell_vertices dx dy (x, y)) /\
       forall proj, exists prow,
         nth_error (notebook_grdverts proj xs ys dx dy) i = Some prow /\
         nth_error prow j = Some (map proj (cell_vertices dx dy (x, y)))) /\
  (forall c, length (cell_vertices dx dy c) = 4%nat /\
             signed_area2 (cell_vertices dx dy c) == 8 * dx * dy).
Proof.
  intros xs ys dx dy Hshape. split; [|split].
  - unfold grid_centers_to_vertices. rewrite map_map.
    rewrite <- (shape_combine xs ys Hshape).
    apply map_ext. intros row. apply length_map.
  - intros i j xr yr x y Hxr Hyr Hx Hy.
    pose proof (nth_error_combine_some _ _ xs ys i xr yr Hxr Hyr) as Hrow.
    pose proof (nth_error_combine_some _ _ xr yr j x y Hx Hy) as Hcell.
    exists (map (cell_vertices dx dy) (combine xr yr)).
    unfold grid_centers_to_vertices. rewrite nth_error_map, Hrow.
    split; [reflexivity|]. split.
    + rewrite nth_error_map, Hcell. reflexivity.
    + intros proj. exists (map (map proj) (map (cell_vertices dx dy) (combine xr yr))).
      unfold notebook_grdverts, reproject, grid_centers_to_vertices.
      rewrite nth_error_map, nth_error_map, Hrow. split; [reflexivity|].
      rewrite nth_error_map, nth_error_map, Hcell. reflexivity.
  - apply cell_vertices_ccw.
Qed.

(** Witness of C9: a 1x2 grid of centres with half-extents 1/2. *)
Lemma grid_centers_to_vertices_cells_witness :
  map (@length _) (grid_centers_to_vertices [[0; 1]] [[0; 0]] (1#2) (1#2))
  = [2%nat].
Proof.
  apply (grid_centers_to_vertices_cells [[0; 1]] [[0; 0]] (1#2) (1#2)).
  reflexivity.
Defined.

End VertexFacts.

Module OverlapFacts.
Import Zonal Samples.

Lemma pixel_eqb_eq : forall p q, pixel_eqb p q = true <-> p = q.
Proof.
  intros [a b] [c d]. unfold pixel_eqb. simpl.
  rewrite andb_true_iff, !Z.eqb_eq.
  split; [intros [-> ->]; reflexivity | intros H; inversion H; auto].
Qed.

Lemma mem_In : forall p r, mem p r = true <-> In p r.
Proof.
  intros p r. unfold mem. rewrite existsb_exists. split.
  - intros [q [Hq He]]. apply pixel_eqb_eq in He. subst. exact Hq.
  - intros H. exists p. split; [exact H | apply pixel_eqb_eq; reflexivity].
Qed.

Lemma sumn_map_add : forall A (f g : A -> nat) l,
  sumn (map (fun x => (f x + g x)%nat) l) = (sumn (map f l) + sumn (map g l))%nat.
Proof. intros A f g l. induction l as [|x l IH]; simpl; [reflexivity | lia]. Qed.

Lemma sumn_map_zero : forall A (l : list A),
  sumn (map (fun _ => 0%nat) l) = 0%nat.
Proof. intros A l. induction l; simpl; auto. Qed.

Lemma isec_area_cons : forall c p t,
  isec_area c (p :: t) = (hit p c + isec_area c t)%nat.
Proof. intros c p t. unfold isec_area, hit. simpl. destruct (mem p c); reflexivity. Qed.

(** Summing the overlaps cell by cell is counting, square by square, the
    cells that hold the square. *)
Lemma sum_isec_hits : forall cells t,
  sumn (map (fun c => isec_area c t) cells) = sumn (map (fun p => hits p cells) t).
Proof.
  intros cells t. induction t as [|p t IH].
  - simpl. unfold isec_area. simpl. apply sumn_map_zero.
  - rewrite (map_ext _ (fun c => (hit p c + isec_area c t)%nat))
      by (intros; apply isec_area_cons).
    rewrite sumn_map_add, IH. reflexivity.
Qed.

Lemma hits_disjoint : forall p cells,
  disjoint_b cells = true ->
  hits p cells = if existsb (mem p) cells then 1%nat else 0%nat.
Proof.
  intros p cells. induction cells as [|c cs IH]; intros Hd; [reflexivity|].
  simpl in Hd. apply andb_true_iff in Hd as [Hc Hcs].
  unfold hits. simpl. fold (hits p cs). rewrite (IH Hcs). unfold hit.
  destruct (mem p c) eqn:Epc; simpl.
  - destruct (existsb (mem p) cs) eqn:Ecs; [|reflexivity].
    exfalso. apply existsb_exists in Ecs as [d [Hd Hpd]].
    rewrite forallb_forall in Hc. specialize (Hc d Hd).
    rewrite forallb_forall in Hc. apply mem_In in Epc.
    specialize (Hc p Epc). rewrite Hpd in Hc. discriminate.
  - destruct (existsb (mem p) cs); reflexivity.
Qed.

Lemma sum_hits_covered : forall cells t,
  disjoint_b cells = true -> covered_b cells t = true ->
  sumn (map (fun p => hits p cells) t) = length t.
Proof.
  intros cells t Hd. induction t as [|p t IH]; intros Hc; [reflexivity|].
  simpl in Hc. apply andb_true_iff in Hc as [Hp Ht].
  simpl. rewrite (hits_disjoint p cells Hd), Hp, (IH Ht). reflexivity.
Qed.

Lemma sum_hits_le : forall cells t,
  disjoint_b cells = true -> (sumn (map (fun p => hits p cells) t) <= length t)%nat.
Proof.
  intros cells t Hd. induction t as [|p t IH]; [simpl; lia|].
  simpl. rewrite (hits_disjoint p cells Hd).
  destruct (existsb (mem p) cells); lia.
Qed.

Lemma sum_hits_partial : forall cells t,
  disjoint_b cells = true -> partially_outside_b cells t = true ->
  (sumn (map (fun p => hits p cells) t) < length t)%nat.
Proof.
  intros cells t Hd. induction t as [|p t IH]; intros Hpo; [discriminate|].
  simpl in Hpo. simpl. rewrite (hits_disjoint p cells Hd).
  destruct (existsb (mem p) cells) eqn:Ep; simpl in Hpo.
  - specialize (IH Hpo). lia.
  - pose proof (sum_hits_le cells t Hd). lia.
Qed.

Lemma sumn_le_map : forall A (f g : A -> nat) l,
  (forall x, In x l -> (f x <= g x)%nat) ->
  (sumn (map f l) <= sumn (map g l))%nat.
Proof.
  intros A f g l. induction l as [|x l IH]; intros H; simpl; [lia|].
  assert (f x <= g x)%nat by (apply H; left; reflexivity).
  assert (sumn (map f l) <= sumn (map g l))%nat
    by (apply IH; intros y Hy; apply H; right; exact Hy).
  lia.
Qed.

Lemma kept_le : forall eps ia, (kept eps ia <= ia)%nat.
Proof. intros eps ia. unfold kept. destruct (_ && _); lia. Qed.

Lemma kept_above : forall eps ia,
  Nat.eqb ia 0 || Qle_bool eps (Qnat ia) = true -> kept eps ia = ia.
Proof.
  intros eps ia H. unfold kept.
  destruct ia as [|n]; [reflexivity|]. simpl in H |- *. rewrite H. reflexivity.
Qed.

Lemma Qnat_pos : forall n, (0 < n)%nat -> 0 < Qnat n.
Proof.
  intros n Hn. unfold Qnat. change 0 with (inject_Z 0).
  rewrite <- Zlt_Qlt. lia.
Qed.

Lemma overlap_go_In : forall eps t cs i r,
  In r (overlap_go eps t i cs) ->
  exists j c, src_idx r = (i + j)%nat /\ nth_error cs j = Some c /\
    frac r = Qnat (isec_area c (tregion t)) / Qnat (area (tregion t)).
Proof.
  intros eps t cs. induction cs as [|c cs IH]; intros i r Hin; [destruct Hin|].
  cbn [overlap_go] in Hin.
  destruct (Nat.ltb 0 _ && _).
  - destruct Hin as [<- | Hin].
    + exists 0%nat, c. simpl. split; [lia | split; reflexivity].
    + destruct (IH (S i) r Hin) as [j [c' [Hi [Hc Hf]]]].
      exists (S j), c'. split; [lia | split; assumption].
  - destruct (IH (S i) r Hin) as [j [c' [Hi [Hc Hf]]]].
    exists (S j), c'. split; [lia | split; assumption].
Qed.

Lemma filter_overlap_go : forall eps t k cs i,
  filter (fun r => Z.eqb (trg_key r) k) (overlap_go eps t i cs)
  = if Z.eqb (tkey t) k then overlap_go eps t i cs else [].
Proof.
  intros eps t k cs. induction cs as [|c cs IH]; intros i.
  - destruct (Z.eqb (tkey t) k); reflexivity.
  - cbn [overlap_go]. destruct (Nat.ltb 0 _ && _).
    + cbn [filter trg_key]. rewrite IH. destruct (Z.eqb (tkey t) k); reflexivity.
    + apply IH.
Qed.

Lemma filter_records_absent : forall eps cells k ts,
  ~ In k (map tkey ts) ->
  filter (fun r => Z.eqb (trg_key r) k) (flat_map (overlap_records eps cells) ts)
  = [].
Proof.
  intros eps cells k ts. induction ts as [|t0 ts IH]; intros Hk; [reflexivity|].
  simpl in Hk. simpl. rewrite filter_app. unfold overlap_records at 1.
  rewrite filter_overlap_go.
  replace (Z.eqb (tkey t0) k) with false
    by (symmetry; apply Z.eqb_neq; intros E; apply Hk; left; exact E).
  apply IH. intros H. apply Hk. right. exact H.
Qed.

Lemma filter_records_target : forall eps cells trgs t,
  NoDup (map tkey trgs) -> In t trgs ->
  filter (fun r => Z.eqb (trg_key r) (tkey t)) (flat_map (overlap_records eps cells) trgs)
  = overlap_records eps cells t.
Proof.
  intros eps cells trgs t. induction trgs as [|t0 ts IH]; intros Hnd Hin;
    [destruct Hin|].
  simpl in Hnd. inversion Hnd as [|? ? Hnotin Hnd']; subst.
  simpl. rewrite filter_app. unfold overlap_records at 1.
  rewrite filter_overlap_go.
  destruct Hin as [<- | Hin].
  - rewrite Z.eqb_refl, filter_records_absent by exact Hnotin.
    apply app_nil_r.
  - replace (Z.eqb (tkey t0) (tkey t)) with false.
    + apply IH; assumption.
    + symmetry. apply Z.eqb_neq. intros E. apply Hnotin. rewrite E.
      apply in_map. exact Hin.
Qed.

Lemma overlap_go_sum : forall eps t cs i,
  fold_right Qplus 0 (map frac (overlap_go eps t i cs))
  == Qnat (sumn (map (fun c => kept eps (isec_area c (tregion t))) cs))
     / Qnat (area (tregion t)).
Proof.
  intros eps t cs. induction cs as [|c cs IH]; intros i.
  - simpl. unfold Qnat, Qdiv. simpl. ring.
  - cbn [overlap_go map sumn fold_right]. fold (sumn (map (fun c => kept eps (isec_area c (tregion t))) cs)).
    unfold kept at 1.
    destruct (Nat.ltb 0 _ && _).
    + cbn [map fold_right frac]. rewrite IH.
      unfold Qnat. rewrite Nat2Z.inj_add, inject_Z_plus. unfold Qdiv. ring.
    + rewrite IH. reflexivity.
Qed.

Lemma Qnat_add : forall a b, Qnat (a + b) == Qnat a + Qnat b.
Proof. intros a b. unfold Qnat. rewrite Nat2Z.inj_add, inject_Z_plus. reflexivity. Qed.

Lemma Qnat_nonneg : forall n, 0 <= Qnat n.
Proof.
  intros n. unfold Qnat. change 0 with (inject_Z 0). rewrite <- Zle_Qle. lia.
Qed.

Lemma Qnat_le : forall a b, (a <= b)%nat -> Qnat a <= Qnat b.
Proof. intros a b H. unfold Qnat. rewrite <- Zle_Qle. lia. Qed.

(** An omission threshold of at most one lattice square omits nothing. *)
Lemma above_eps_small : forall eps cells t,
  eps <= 1 -> above_eps_b eps cells t = true.
Proof.
  intros eps cells t He. unfold above_eps_b. apply forallb_forall. intros c _.
  destruct (isec_area c t) as [|n] eqn:Hia; [reflexivity|].
  apply orb_true_intro. right. apply Qle_bool_iff.
  apply Qle_trans with 1; [exact He|].
  unfold Qnat. change 1 with (inject_Z 1). rewrite <- Zle_Qle. lia.
Qed.

(** One pair loses at most [eps] of intersection area to the filter. *)
Lemma kept_loss1 : forall eps ia, 0 <= eps -> Qnat ia <= Qnat (kept eps ia) + eps.
Proof.
  intros eps ia He. unfold kept.
  destruct (Nat.ltb 0 ia) eqn:Hlt; simpl.
  - destruct (Qle_bool eps (Qnat ia)) eqn:Hq.
    + lra.
    + assert (~ eps <= Qnat ia) as Hn
        by (intros H; apply Qle_bool_iff in H; rewrite H in Hq; discriminate).
      apply Qnot_le_lt in Hn. pose proof (Qnat_nonneg 0). lra.
  - apply Nat.ltb_ge in Hlt. replace ia with 0%nat by lia. lra.
Qed.

Lemma kept_loss : forall eps t cs, 0 <= eps ->
  Qnat (sumn (map (fun c => isec_area c t) cs))
  <= Qnat (sumn (map (fun c => kept eps (isec_area c t)) cs)) + Qnat (length cs) * eps.
Proof.
  intros eps t cs He. induction cs as [|c cs IH].
  - unfold sumn. simpl. change (Qnat 0) with (0#1). lra.
  - cbn [map sumn fold_right length].
    fold (sumn (map (fun c => isec_area c t) cs)).
    fold (sumn (map (fun c => kept eps (isec_area c t)) cs)).
    rewrite !Qnat_add. change (S (length cs)) with (1 + length cs)%nat.
    rewrite Qnat_add. pose proof (kept_loss1 eps (isec_area c t) He).
    change (Qnat 1) with 1. lra.
Qed.

(** ** C1 *)

(** Claim C1: in a table built by [ZonalDataPoly] (target keys distinct),
    each record of target [t] has fraction = intersection area of its source
    cell with [t] / area of [t].  If the source cells do not overlap one
    another: when [t] is fully covered and the omission threshold [eps] is a
    sliver tolerance (at most one lattice square, the area resolution), the
    fractions of [t] sum to exactly 1; for any threshold [eps >= 0] they sum
    to at most 1 and fall short of 1 by at most
    [number of cells * eps / area of t] (the tolerance); when part of [t]
    lies outside every cell, they sum to strictly less than 1. *)
Theorem ZonalDataPoly_overlap_fractions : forall eps cells trgs tbl t,
  ZonalDataPoly eps cells trgs = inr tbl ->
  NoDup (map tkey trgs) -> In t trgs ->
  (forall r, In r (records tbl) -> trg_key r = tkey t ->
     exists c, nth_error cells (src_idx r) = Some c /\
       frac r = Qnat (isec_area c (tregion t)) / Qnat (area (tregion t))) /\
  (disjoint_b cells = true -> covered_b cells (tregion t) = true -> eps <= 1 ->
   target_fraction_sum tbl (tkey t) == 1) /\
  (disjoint_b cells = true -> covered_b cells (tregion t) = true -> 0 <= eps ->
   1 - Qnat (length cells) * eps / Qnat (area (tregion t))
     <= target_fraction_sum tbl (tkey t) <= 1) /\
  (disjoint_b cells = true -> partially_outside_b cells (tregion t) = true ->
   target_fraction_sum tbl (tkey t) < 1).
Proof.
  intros eps cells trgs tbl t Hbuild Hnd Hin.
  unfold ZonalDataPoly in Hbuild.
  destruct (find _ trgs) eqn:Ef; [discriminate|].
  injection Hbuild as <-.
  assert (Hval : valid_target t = true).
  { pose proof (find_none _ _ Ef t Hin) as H. simpl in H.
    destruct (valid_target t); [reflexivity | discriminate]. }
  assert (Harea : (0 < area (tregion t))%nat).
  { unfold valid_target in Hval. apply andb_true_iff in Hval as [H _].
    destruct (area (tregion t)); [discriminate | lia]. }
  pose proof (Qnat_pos _ Harea) as HA.
  assert (Hfilt := filter_records_target eps cells trgs t Hnd Hin).
  assert (Hsum : target_fraction_sum
                   {| records := flat_map (overlap_records eps cells) trgs;
                      targets := map tkey trgs; ncells := length cells;
                      fingerprint := geometry_fingerprint cells trgs |} (tkey t)
                 == Qnat (sumn (map (fun c => kept eps (isec_area c (tregion t))) cells))
                    / Qnat (area (tregion t))).
  { unfold target_fraction_sum. simpl records. rewrite Hfilt. apply overlap_go_sum. }
  assert (Hkeptle : (sumn (map (fun c => kept eps (isec_area c (tregion t))) cells)
                     <= sumn (map (fun c => isec_area c (tregion t)) cells))%nat).
  { apply sumn_le_map. intros c _. apply kept_le. }
  split; [|split; [|split]].
  - intros r Hr Hk. simpl records in Hr.
    assert (Hr' : In r (overlap_records eps cells t)).
    { rewrite <- Hfilt. apply filter_In. split; [exact Hr | apply Z.eqb_eq; exact Hk]. }
    destruct (overlap_go_In eps t cells 0 r Hr') as [j [c [Hi [Hc Hf]]]].
    exists c. simpl in Hi. rewrite Hi. split; assumption.
  - intros Hd Hc He. rewrite Hsum.
    rewrite (map_ext_in _ (fun c => isec_area c (tregion t))).
    + rewrite sum_isec_hits, sum_hits_covered by assumption.
      unfold area. field. intros H. unfold area in HA. rewrite H in HA.
      apply (Qlt_irrefl 0). exact HA.
    + intros c Hc'. apply kept_above.
      pose proof (above_eps_small eps cells (tregion t) He) as Hab.
      unfold above_eps_b in Hab. rewrite forallb_forall in Hab. apply Hab. exact Hc'.
  - intros Hd Hc He.
    assert (Hcov : sumn (map (fun c => isec_area c (tregion t)) cells) = area (tregion t))
      by (rewrite sum_isec_hits; apply sum_hits_covered; assumption).
    pose proof (kept_loss eps (tregion t) cells He) as Hloss.
    rewrite Hcov in Hloss, Hkeptle. rewrite Hsum. split.
    + apply Qle_shift_div_l; [exact HA|].
      setoid_replace ((1 - Qnat (length cells) * eps / Qnat (area (tregion t)))
                       * Qnat (area (tregion t)))
        with (Qnat (area (tregion t)) - Qnat (length cells) * eps)
        by (field; intros H; rewrite H in HA; apply (Qlt_irrefl 0); exact HA).
      lra.
    + apply Qle_shift_div_r; [exact HA|]. rewrite Qmult_1_l.
      apply Qnat_le. exact Hkeptle.
  - intros Hd Hp. rewrite Hsum.
    apply Qlt_shift_div_r; [exact HA|]. rewrite Qmult_1_l.
    unfold Qnat. rewrite <- Zlt_Qlt. apply Nat2Z.inj_lt.
    eapply Nat.le_lt_trans; [exact Hkeptle|].
    rewrite sum_isec_hits. apply sum_hits_partial; assumption.
Qed.

(** Witness of C1: with [eps = 1] the covered catchment's fractions sum
    to 1. *)
Lemma ZonalDataPoly_overlap_fractions_witness :
  target_fraction_sum (built_eps 1) (tkey catchment_3) == 1.
Proof.
  destruct (ZonalDataPoly_overlap_fractions 1 cells_2 [catchment_3] (built_eps 1)
              catchment_3) as [_ [Hfull _]].
  - reflexivity.
  - constructor; [intros [] | constructor].
  - left. reflexivity.
  - apply Hfull; [reflexivity | reflexivity | lra].
Defined.

End OverlapFacts.

Module NotebookFacts.
Import Vertices Zonal WeightStore Stats Notebook.

Lemma nth_error_indexed : forall A B (f : nat * A -> B) (a : list A) s i,
  nth_error (map f (combine (seq s (length a)) a)) i
  = option_map (fun x => f ((s + i)%nat, x)) (nth_error a i).
Proof.
  intros A B f a. induction a as [|x a IH]; intros s i.
  - destruct i; reflexivity.
  - destruct i as [|i]; simpl.
    + rewrite Nat.add_0_r. reflexivity.
    + rewrite IH. destruct (nth_error a i); simpl; [|reflexivity].
      rewrite Nat.add_succ_r. reflexivity.
Qed.

Lemma flat_assign_ok : forall a idx v,
  (forall i, In i idx -> (i < length a)%nat) ->
  exists a', flat_assign a idx v = Some a' /\ length a' = length a /\
    forall i x, nth_error a i = Some x ->
      nth_error a' i = Some (if mem_nat i idx then v else x).
Proof.
  intros a idx v Hin. unfold flat_assign.
  replace (forallb _ idx) with true.
  - eexists. split; [reflexivity|]. split.
    + rewrite length_map, length_combine, length_seq. apply Nat.min_id.
    + intros i x Hx. rewrite nth_error_indexed, Hx. reflexivity.
  - symmetry. apply forallb_forall. intros i Hi. apply Nat.ltb_lt. auto.
Qed.

Lemma mem_nat_In : forall i idx, mem_nat i idx = true <-> In i idx.
Proof.
  intros i idx. unfold mem_nat. rewrite existsb_exists. split.
  - intros [j [Hj E]]. apply Nat.eqb_eq in E. subst. exact Hj.
  - intros H. exists i. split; [exact H | apply Nat.eqb_refl].
Qed.

(** ** Masking of invalid cells (part_000) *)

(** The RW masking of part_000: when every secondary index lies inside the
    array, cell [i] of the result is masked exactly when [i] is listed as
    secondary or its value already was -9999; every other cell keeps its
    value. *)
Theorem rw_mask_invalid_cells : forall rwdata sec,
  (forall i, In i sec -> (i < length rwdata)%nat) ->
  exists m, rw_mask_invalid rwdata sec = Some m /\ length m = length rwdata /\
    forall i x, nth_error rwdata i = Some x ->
      nth_error m i = Some (if mem_nat i sec || Qeq_bool x (-9999) then None
                            else Some x).
Proof.
  intros rwdata sec Hin.
  destruct (flat_assign_ok rwdata sec (-9999) Hin) as [a [Ha [Hlen Hnth]]].
  exists (masked_equal a (-9999)). unfold rw_mask_invalid. rewrite Ha.
  split; [reflexivity|]. split.
  - unfold masked_equal. rewrite length_map. exact Hlen.
  - intros i x Hx. unfold masked_equal. rewrite nth_error_map, (Hnth i x Hx).
    simpl. destruct (mem_nat i sec); reflexivity.
Qed.

Lemma rw_mask_invalid_cells_witness :
  exists m, rw_mask_invalid [1; -9999; 3] [0%nat] = Some m /\ length m = 3%nat /\
    forall i x, nth_error [1; -9999; 3] i = Some x ->
      nth_error m i = Some (if mem_nat i [0%nat] || Qeq_bool x (-9999) then None
                            else Some x).
Proof.
  apply (rw_mask_invalid_cells [1; -9999; 3] [0%nat]).
  intros i [<- | []]. simpl. lia.
Defined.

Lemma flat_assign_assigned : forall a idx v a' i,
  flat_assign a idx v = Some a' -> In i idx -> nth_error a' i = Some v.
Proof.
  intros a idx v a' i Ha Hi. unfold flat_assign in Ha.
  destruct (forallb _ idx) eqn:Hall; [|discriminate].
  injection Ha as <-. rewrite forallb_forall in Hall.
  specialize (Hall i Hi). apply Nat.ltb_lt in Hall.
  destruct (nth_error a i) as [x|] eqn:Hx.
  - rewrite nth_error_indexed, Hx. simpl.
    replace (mem_nat i idx) with true; [reflexivity|].
    symmetry. apply mem_nat_In. exact Hi.
  - apply nth_error_None in Hx. lia.
Qed.

Lemma zonal_stat_drop_nodata_cell : forall A (stat : list (Q * Q) -> A) nodata tbl vals i v,
  nth_error vals i = Some v -> Qeq_bool v nodata = true ->
  zonal_stat stat nodata (remove_cell i tbl) vals = zonal_stat stat nodata tbl vals.
Proof.
  intros A stat nodata tbl vals i v Hv Hnd.
  unfold zonal_stat, remove_cell. simpl.
  destruct (negb _); [reflexivity|].
  induction (targets tbl) as [|k ks IH]; [reflexivity|].
  simpl. rewrite (StatsFacts.contrib_remove_cell nodata vals k i v (records tbl) Hv Hnd).
  rewrite IH. reflexivity.
Qed.

(** ** Secondary cells and the statistics (wradlib_get_rainfall.ipynb) *)

(** Once [data.flat[sec]] has been set to the no-data value, the zonal
    statistics of the masked values are those of the table from which every
    secondary cell's records were removed: no secondary cell contributes to
    any target, whatever its weight. *)
Theorem mask_secondary_stats : forall A (stat : list (Q * Q) -> A) nodata data sec data' tbl,
  mask_secondary nodata data sec = Some data' ->
  zonal_stat stat nodata tbl data'
  = zonal_stat stat nodata (fold_right remove_cell tbl sec) data'.
Proof.
  intros A stat nodata data sec data' tbl Hm. unfold mask_secondary in Hm.
  assert (Hset : forall i, In i sec -> nth_error data' i = Some nodata)
    by (intros i Hi; exact (flat_assign_assigned _ _ _ _ _ Hm Hi)).
  clear Hm. induction sec as [|i sec IH]; [reflexivity|].
  simpl. rewrite (zonal_stat_drop_nodata_cell A stat nodata _ data' i nodata).
  - apply IH. intros j Hj. apply Hset. right. exact Hj.
  - apply Hset. left. reflexivity.
  - apply Qeq_bool_iff. reflexivity.
Qed.

Lemma mask_secondary_stats_witness :
  mean (-1) Samples.tbl_two [3; -1]
  = mean (-1) (fold_right remove_cell Samples.tbl_two [1%nat]) [3; -1].
Proof.
  apply (mask_secondary_stats _ weighted_mean (-1) [3; 7] [1%nat] [3; -1]).
  reflexivity.
Defined.

(** ** Clipping the grid (wradlib_get_rainfall.ipynb, lines 483-490) *)

Lemma Qltb_spec : forall a b, Qltb a b = true <-> a < b.
Proof.
  intros a b. unfold Qltb. rewrite negb_true_iff, <- not_true_iff_false, Qle_bool_iff.
  split; [apply Qnot_le_lt | apply Qlt_not_le].
Qed.

(** Every centre inside the (closed) extent of the layer is kept. *)
Theorem clip_mask_keeps_extent : forall e xy i p,
  nth_error xy i = Some p ->
  ext_xmin e <= fst p <= ext_xmax e -> ext_ymin e <= snd p <= ext_ymax e ->
  nth_error (clip_mask (buffered_bbox e notebook_buffer) xy) i = Some true.
Proof.
  intros e xy i p Hp [Hx1 Hx2] [Hy1 Hy2].
  unfold clip_mask. rewrite nth_error_map, Hp.
  cbn [option_map buffered_bbox bb_left bb_right bb_bottom bb_top]. f_equal.
  unfold notebook_buffer. apply andb_true_iff; split; apply andb_true_iff;
    split; apply Qltb_spec; lra.
Qed.

Lemma clip_mask_keeps_extent_witness :
  nth_error (clip_mask (buffered_bbox
      {| ext_xmin := 0; ext_xmax := 10; ext_ymin := 0; ext_ymax := 10 |}
      notebook_buffer) [(10, 0)]) 0 = Some true.
Proof.
  apply (clip_mask_keeps_extent {| ext_xmin := 0; ext_xmax := 10; ext_ymin := 0; ext_ymax := 10 |}
           [(10, 0)] 0 (10, 0)); simpl; [reflexivity | split; lra | split; lra].
Defined.

Lemma select_ok : forall A (mask : list bool) (l : list A),
  length mask = length l ->
  select mask l = Some (map snd (filter fst (combine mask l))).
Proof.
  intros A mask l H. unfold select. apply Nat.eqb_eq in H. rewrite H. reflexivity.
Qed.

Lemma select_nth : forall A (mask : list bool) (l : list A) k,
  length mask = length l ->
  nth_error (map snd (filter fst (combine mask l))) k
  = match kth_true mask k with Some i => nth_error l i | None => None end.
Proof.
  intros A mask. induction mask as [|b mask IH]; intros l k H.
  - destruct k; reflexivity.
  - destruct l as [|x l]; [discriminate|]. injection H as H.
    destruct b; simpl.
    + destruct k as [|k]; [reflexivity|]. simpl.
      rewrite IH by exact H. destruct (kth_true mask k); reflexivity.
    + rewrite IH by exact H. destruct (kth_true mask k); reflexivity.
Qed.

Lemma select_length : forall A B (mask : list bool) (l1 : list A) (l2 : list B),
  length mask = length l1 -> length mask = length l2 ->
  length (map snd (filter fst (combine mask l1)))
  = length (map snd (filter fst (combine mask l2))).
Proof.
  intros A B mask. induction mask as [|b mask IH]; intros l1 l2 H1 H2; [reflexivity|].
  destruct l1 as [|x l1]; [discriminate|]. destruct l2 as [|y l2]; [discriminate|].
  injection H1 as H1. injection H2 as H2.
  destruct b; simpl; rewrite ?length_map in *; [f_equal|];
    specialize (IH l1 l2 H1 H2); rewrite !length_map in IH; exact IH.
Qed.

Lemma kth_true_true : forall mask k i,
  kth_true mask k = Some i -> nth_error mask i = Some true.
Proof.
  intros mask. induction mask as [|b mask IH]; intros k i H; [discriminate|].
  destruct b; simpl in H.
  - destruct k as [|k].
    + injection H as <-. reflexivity.
    + destruct (kth_true mask k) as [j|] eqn:Hj; [|discriminate].
      injection H as <-. exact (IH k j Hj).
  - destruct (kth_true mask k) as [j|] eqn:Hj; [|discriminate].
    injection H as <-. exact (IH k j Hj).
Qed.

Lemma nth_error_same_length : forall A B (l1 : list A) (l2 : list B) i x,
  length l1 = length l2 -> nth_error l1 i = Some x -> exists y, nth_error l2 i = Some y.
Proof.
  intros A B l1 l2 i x H Hx.
  destruct (nth_error l2 i) as [y|] eqn:Hy; [exists y; reflexivity|].
  apply nth_error_None in Hy. assert (i < length l1)%nat
    by (apply nth_error_Some; rewrite Hx; discriminate). lia.
Qed.

(** ** Polygons and values stay aligned (lines 483-533) *)

(** When the centre coordinates, the reprojected centres and the values are
    arrays of one size, the clipping succeeds and gives as many polygons as
    values; the [k]-th value and the [k]-th polygon belong to one grid cell
    [i] that the clip mask keeps: the value is [data[i]] and the polygon is
    the reprojected polygon [cell_vertices 1 1] around
    [(x_radolan[i], y_radolan[i])], the generator's [(1., 1.)] taken as
    half-extents as the generator is modelled. *)
Theorem notebook_clip_aligned : forall proj e xy xr yr data,
  length xr = length xy -> length yr = length xy -> length data = length xy ->
  exists grdverts data_,
    notebook_clip proj e xy xr yr data = Some (grdverts, data_) /\
    length grdverts = length data_ /\
    forall k v, nth_error data_ k = Some v ->
      exists i x y, nth_error (clip_mask (buffered_bbox e notebook_buffer) xy) i = Some true /\
        nth_error data i = Some v /\ nth_error xr i = Some x /\ nth_error yr i = Some y /\
        nth_error grdverts k = Some (map proj (cell_vertices 1 1 (x, y))).
Proof.
  intros proj e xy xr yr data Hx Hy Hd.
  set (mask := clip_mask (buffered_bbox e notebook_buffer) xy).
  assert (Hm : length mask = length xy) by (unfold mask, clip_mask; apply length_map).
  set (xs := map snd (filter fst (combine mask xr))).
  set (ys := map snd (filter fst (combine mask yr))).
  set (ds := map snd (filter fst (combine mask data))).
  exists (map (map proj) (map (cell_vertices 1 1) (combine xs ys))), ds.
  split; [|split].
  - unfold notebook_clip. fold mask.
    rewrite (select_ok _ mask xr), (select_ok _ mask yr), (select_ok _ mask data) by lia.
    unfold notebook_grdverts, reproject, grid_centers_to_vertices. simpl.
    rewrite app_nil_r. reflexivity.
  - rewrite !length_map, length_combine.
    unfold xs, ys, ds.
    rewrite (select_length _ _ mask xr data), (select_length _ _ mask yr data) by lia.
    apply Nat.min_id.
  - intros k v Hv. unfold ds in Hv. rewrite select_nth in Hv by lia.
    destruct (kth_true mask k) as [i|] eqn:Hi; [|discriminate].
    destruct (nth_error_same_length _ _ data xr i v ltac:(lia) Hv) as [x Hxi].
    destruct (nth_error_same_length _ _ data yr i v ltac:(lia) Hv) as [y Hyi].
    exists i, x, y. split; [exact (kth_true_true mask k i Hi)|].
    split; [exact Hv|]. split; [exact Hxi|]. split; [exact Hyi|].
    assert (Hxs : nth_error xs k = Some x)
      by (unfold xs; rewrite select_nth, Hi by lia; exact Hxi).
    assert (Hys : nth_error ys k = Some y)
      by (unfold ys; rewrite select_nth, Hi by lia; exact Hyi).
    rewrite !nth_error_map, (VertexFacts.nth_error_combine_some _ _ xs ys k x y Hxs Hys).
    reflexivity.
Qed.

Lemma notebook_clip_aligned_witness :
  exists grdverts data_,
    notebook_clip (fun p => p) {| ext_xmin := 0; ext_xmax := 0; ext_ymin := 0; ext_ymax := 0 |}
      [(0, 0); (9000, 0)] [0; 9000] [0; 0] [4; 5] = Some (grdverts, data_) /\
    length grdverts = length data_ /\
    forall k v, nth_error data_ k = Some v ->
      exists i x y, nth_error (clip_mask (buffered_bbox
          {| ext_xmin := 0; ext_xmax := 0; ext_ymin := 0; ext_ymax := 0 |}
          notebook_buffer) [(0, 0); (9000, 0)]) i = Some true /\
        nth_error [4; 5] i = Some v /\ nth_error [0; 9000] i = Some x /\
        nth_error [0; 0] i = Some y /\
        nth_error grdverts k = Some (map (fun p => p) (cell_vertices 1 1 (x, y))).
Proof.
  apply (notebook_clip_aligned (fun p => p)
           {| ext_xmin := 0; ext_xmax := 0; ext_ymin := 0; ext_ymax := 0 |}
           [(0, 0); (9000, 0)] [0; 9000] [0; 0] [4; 5]); reflexivity.
Defined.

Lemma notebook_clip_shape : forall proj e xy xr yr data,
  length xr = length xy -> length yr = length xy -> length data = length xy ->
  exists grdverts data_,
    notebook_clip proj e xy xr yr data = Some (grdverts, data_) /\
    length grdverts = length data_.
Proof.
  intros proj e xy xr yr data Hx Hy Hd.
  set (mask := clip_mask (buffered_bbox e notebook_buffer) xy).
  assert (Hm : length mask = length xy) by (unfold mask, clip_mask; apply length_map).
  unfold notebook_clip. fold mask.
  rewrite (select_ok _ mask xr), (select_ok _ mask yr), (select_ok _ mask data) by lia.
  do 2 eexists. split; [reflexivity|].
  unfold notebook_grdverts, reproject, grid_centers_to_vertices. simpl.
  rewrite app_nil_r, length_map, length_map, length_combine.
  rewrite (select_length _ _ mask xr data), (select_length _ _ mask yr data) by lia.
  apply Nat.min_id.
Qed.

Lemma overlap_records_src_idx : forall eps cells trgs r,
  In r (flat_map (overlap_records eps cells) trgs) -> (src_idx r < length cells)%nat.
Proof.
  intros eps cells trgs r Hr. apply in_flat_map in Hr as [t [_ Hr]].
  unfold overlap_records in Hr.
  destruct (OverlapFacts.overlap_go_In eps t cells 0 r Hr) as [j [c [Hi [Hc _]]]].
  rewrite Hi. simpl. apply nth_error_Some. rewrite Hc. discriminate.
Qed.

Lemma contrib_total : forall nodata vals k rs,
  (forall r, In r rs -> (src_idx r < length vals)%nat) ->
  exists ps, contrib nodata vals k rs = inr ps.
Proof.
  intros nodata vals k rs. induction rs as [|r rs IH]; intros H; [eexists; reflexivity|].
  destruct IH as [ps Hps]; [intros r' Hr'; apply H; right; exact Hr'|].
  simpl. destruct (Z.eqb (trg_key r) k); [|exists ps; exact Hps].
  destruct (nth_error vals (src_idx r)) as [v|] eqn:Hv.
  - rewrite Hps. simpl. destruct (Qeq_bool v nodata); eexists; reflexivity.
  - apply nth_error_None in Hv. specialize (H r (or_introl eq_refl)). lia.
Qed.

Lemma mapM_err_total : forall E A B (f : A -> E + B) l,
  (forall a, In a l -> exists b, f a = inr b) ->
  exists bs, mapM_err f l = inr bs /\ length bs = length l.
Proof.
  intros E A B f l. induction l as [|a l IH]; intros H; [exists []; split; reflexivity|].
  destruct (H a (or_introl eq_refl)) as [b Hb].
  destruct IH as [bs [Hbs Hl]]; [intros a' Ha'; apply H; right; exact Ha'|].
  exists (b :: bs). simpl. rewrite Hb. simpl. rewrite Hbs. split; [reflexivity|].
  simpl. f_equal. exact Hl.
Qed.

(** ** The zonal mean of the notebook (lines 483-565) *)

(** With arrays of one size, the notebook's pipeline from the clip to
    [obj.mean(data_.ravel())] never stops on a dimension mismatch or an index
    error: if every catchment is a valid target it yields one mean (or no
    value) per catchment, in the catchments' order; otherwise it stops with
    the geometry error of an invalid catchment. *)
Theorem notebook_zonal_mean_total : forall raster proj eps nodata e xy xr yr data cats,
  length xr = length xy -> length yr = length xy -> length data = length xy ->
  (forallb valid_target cats = true ->
   exists avg, notebook_zonal_mean raster proj eps nodata e xy xr yr data cats
               = Some (inr (inr avg)) /\ length avg = length cats) /\
  (forallb valid_target cats = false ->
   exists t, In t cats /\ valid_target t = false /\
     notebook_zonal_mean raster proj eps nodata e xy xr yr data cats
     = Some (inl (DegenerateTarget (tkey t)))).
Proof.
  intros raster proj eps nodata e xy xr yr data cats Hx Hy Hd.
  destruct (notebook_clip_shape proj e xy xr yr data Hx Hy Hd) as [g [d [Hc Hl]]].
  unfold notebook_zonal_mean. rewrite Hc. unfold ZonalDataPoly.
  destruct (find (fun t => negb (valid_target t)) cats) as [t|] eqn:Hf.
  - apply find_some in Hf as [Ht Hv]. apply negb_true_iff in Hv.
    split.
    + intros Hall. rewrite forallb_forall in Hall. rewrite (Hall t Ht) in Hv. discriminate.
    + intros _. exists t. split; [exact Ht|]. split; [exact Hv | reflexivity].
  - split.
    + intros _. simpl. unfold zonal_stat. simpl.
      rewrite length_map, Hl, Nat.eqb_refl. simpl.
      destruct (mapM_err_total _ _ _ (fun k => ps <-? contrib nodata d k
                  (flat_map (overlap_records eps (map raster g)) cats) ;;
                  inr (weighted_mean ps)) (map tkey cats)) as [avg [Havg Hlen]].
      * intros k _.
        destruct (contrib_total nodata d k
                    (flat_map (overlap_records eps (map raster g)) cats)) as [ps Hps].
        { intros r Hr. rewrite <- Hl, <- (length_map raster).
          exact (overlap_records_src_idx eps (map raster g) cats r Hr). }
        rewrite Hps. eexists. reflexivity.
      * exists avg. rewrite Havg. split; [reflexivity|].
        rewrite Hlen. apply length_map.
    + intros Hall. exfalso. apply not_true_iff_false in Hall. apply Hall.
      apply forallb_forall. intros t Ht.
      pose proof (find_none _ _ Hf t Ht) as Hn. simpl in Hn.
      apply negb_false_iff in Hn. exact Hn.
Qed.

Lemma notebook_zonal_mean_total_witness :
  let run := notebook_zonal_mean (fun _ => [(0, 0)%Z; (1, 0)%Z; (2, 0)%Z]) (fun p => p) 1 (-1)
               {| ext_xmin := 0; ext_xmax := 0; ext_ymin := 0; ext_ymax := 0 |}
               [(0, 0)] [0] [0] [4] [Samples.catchment_3] in
  (forallb valid_target [Samples.catchment_3] = true ->
   exists avg, run = Some (inr (inr avg)) /\ length avg = length [Samples.catchment_3]) /\
  (forallb valid_target [Samples.catchment_3] = false ->
   exists t, In t [Samples.catchment_3] /\ valid_target t = false /\
     run = Some (inl (DegenerateTarget (tkey t)))).
Proof.
  apply (notebook_zonal_mean_total (fun _ => [(0, 0)%Z; (1, 0)%Z; (2, 0)%Z]) (fun p => p) 1 (-1)
           {| ext_xmin := 0; ext_xmax := 0; ext_ymin := 0; ext_ymax := 0 |}
           [(0, 0)] [0] [0] [4] [Samples.catchment_3]); reflexivity.
Defined.

Lemma flagged_bound : forall p f raws s i,
  In i (Composite.flagged p f s raws) -> (s <= i < s + length raws)%nat.
Proof.
  intros p f raws. induction raws as [|r raws IH]; intros s i Hi; [destruct Hi|].
  simpl in Hi.
  destruct (Composite.sentinel_table p r) as [g|];
    [destruct (Composite.Flag_eqb f g); [destruct Hi as [<- | Hi]|] |];
    try (simpl; lia);
    specialize (IH (S s) i Hi); simpl; lia.
Qed.

(** ** Decoding then masking (part_000, lines 50-53 and 77-80) *)

(** On any array of the decoded grid's size (the decoded values with the
    flagged cells filled in), part_000's masking with the decoder's own
    [secondary] list never raises IndexError, keeps the size, and masks every
    secondary cell. *)
Theorem decoded_secondary_masking : forall h payload g rwdata,
  Composite.read_radolan_composite h payload = inr g ->
  length rwdata = length (Composite.grid_data g) ->
  exists m, rw_mask_invalid rwdata (Composite.secondary g) = Some m /\
    length m = length rwdata /\
    forall i, In i (Composite.secondary g) -> nth_error m i = Some None.
Proof.
  intros h payload g rwdata Hg Hlen.
  unfold Composite.read_radolan_composite in Hg.
  destruct (Nat.eqb (length payload) _) eqn:Hp; simpl in Hg; [|discriminate].
  destruct (forallb _ _) eqn:Hidx; simpl in Hg; [|discriminate].
  injection Hg as <-. simpl in *.
  apply Nat.eqb_eq in Hp. rewrite forallb_forall in Hidx.
  rewrite length_map, (CompositeFacts.words_length _ _ _ _ Hp) in Hlen.
  set (sec := Composite.hdr_secondary h ++ _).
  assert (Hin : forall i, In i sec -> (i < length rwdata)%nat).
  { intros i Hi. apply in_app_or in Hi as [Hi | Hi].
    - specialize (Hidx i (in_or_app _ _ _ (or_introl Hi))).
      unfold Composite.in_grid in Hidx. apply Nat.ltb_lt in Hidx. lia.
    - apply flagged_bound in Hi.
      rewrite (CompositeFacts.words_length _ _ _ _ Hp) in Hi. lia. }
  destruct (flat_assign_ok rwdata sec (-9999) Hin) as [a [Ha [Hal _]]].
  exists (masked_equal a (-9999)). unfold rw_mask_invalid. rewrite Ha.
  split; [reflexivity|]. split.
  - unfold masked_equal. rewrite length_map. exact Hal.
  - intros i Hi. unfold masked_equal.
    rewrite nth_error_map, (flat_assign_assigned _ _ _ _ _ Ha Hi). reflexivity.
Qed.

Lemma decoded_secondary_masking_witness :
  exists m, rw_mask_invalid [5] [0%nat; 0%nat] = Some m /\ length m = 1%nat /\
    forall i, In i [0%nat; 0%nat] -> nth_error m i = Some None.
Proof.
  apply (decoded_secondary_masking (Samples.hdr_1x1 [0%nat]) [Byte.xf9]
           {| Composite.grid_data := [None]; Composite.secondary := [0%nat; 0%nat];
              Composite.clutter := []; Composite.undefined := [];
              Composite.negative := [] |} [5]); reflexivity.
Defined.

Lemma flat_assign_length : forall a idx v a',
  flat_assign a idx v = Some a' -> length a' = length a.
Proof.
  intros a idx v a' Ha. unfold flat_assign in Ha.
  destruct (forallb _ idx); [|discriminate]. injection Ha as <-.
  rewrite length_map, length_combine, length_seq. apply Nat.min_id.
Qed.

Lemma contrib_all_nodata : forall nodata vals k rs,
  (forall r, In r rs -> nth_error vals (src_idx r) = Some nodata) ->
  contrib nodata vals k rs = inr [].
Proof.
  intros nodata vals k rs. induction rs as [|r rs IH]; intros H; [reflexivity|].
  simpl. rewrite IH by (intros r' Hr'; apply H; right; exact Hr').
  destruct (Z.eqb (trg_key r) k); [|reflexivity].
  rewrite (H r (or_introl eq_refl)). simpl.
  replace (Qeq_bool nodata nodata) with true; [reflexivity|].
  symmetry. apply Qeq_bool_iff. reflexivity.
Qed.

(** ** All contributing cells secondary (lines 367-368 and 565) *)

(** When every cell that contributes to the table is listed as secondary,
    the masked values give no mean for any target (the weight sums are 0),
    rather than an error or a mean of 0. *)
Theorem mask_secondary_all_cells_mean : forall nodata data sec data' tbl,
  mask_secondary nodata data sec = Some data' -> length data = ncells tbl ->
  (forall r, In r (records tbl) -> In (src_idx r) sec) ->
  mean nodata tbl data' = inr (map (fun _ => None) (targets tbl)).
Proof.
  intros nodata data sec data' tbl Hm Hlen Hsec. unfold mask_secondary in Hm.
  unfold mean, zonal_stat.
  rewrite (flat_assign_length _ _ _ _ Hm), Hlen, Nat.eqb_refl. simpl.
  assert (Hc : forall k, contrib nodata data' k (records tbl) = inr []).
  { intros k. apply contrib_all_nodata. intros r Hr.
    exact (flat_assign_assigned _ _ _ _ _ Hm (Hsec r Hr)). }
  induction (targets tbl) as [|k ks IH]; [reflexivity|].
  simpl. rewrite Hc, IH. reflexivity.
Qed.

Lemma mask_secondary_all_cells_mean_witness :
  mean (-1) Samples.tbl_two [-1; -1] = inr [None].
Proof.
  apply (mask_secondary_all_cells_mean (-1) [3; 7] [0%nat; 1%nat] [-1; -1] Samples.tbl_two).
  - reflexivity.
  - reflexivity.
  - intros r [<- | [<- | []]]; simpl; auto.
Defined.

End NotebookFacts.
